(** * ibm-products: ExportModal, TagOverflow and ModifiedTabs

    A shallow embedding of the view logic of three components:
    - [ExportModal]  (the export dialog: state hooks, effect, handlers,
      derived flags and the conditional rendering),
    - [TagOverflow]  (the overflow popover, known from its documentation),
    - [ModifiedTabs] (the closable tab strip).

    Strings are JavaScript strings, that is sequences of UTF-16 code units;
    optional props are [option]s; host callbacks are opaque, so a handler
    run is the list of host calls it makes together with the error it
    raises, if any. *)

From Stdlib Require Import NArith String Ascii.
From stdpp Require Import base decidable option list.

Local Open Scope N_scope.

(** ** JavaScript values used by the components *)

Module JS.

(** A string is its sequence of UTF-16 code units. *)
Abbreviation jsstring := (list N).

(** A string literal of the source, for the ASCII literals it uses. *)
Definition lit (s : string) : jsstring :=
  N_of_ascii <$> list_ascii_of_string s.

(** The code unit of ['.']. *)
Definition dot : N := 46.

(** [WhiteSpace] and [LineTerminator] of ECMAScript, the code points that
    [String.prototype.trim] strips. All of them are single code units. *)
Definition isWhiteSpace (c : N) : bool :=
  (c =? 9) || (c =? 10) || (c =? 11) || (c =? 12) || (c =? 13)
  || (c =? 32) || (c =? 160) || (c =? 5760)
  || ((8192 <=? c) && (c <=? 8202))
  || (c =? 8232) || (c =? 8233) || (c =? 8239) || (c =? 8287)
  || (c =? 12288) || (c =? 65279).

Fixpoint trimStart (s : jsstring) : jsstring :=
  match s with
  | [] => []
  | c :: s' => if isWhiteSpace c then trimStart s' else s
  end.

Definition trimEnd (s : jsstring) : jsstring :=
  reverse (trimStart (reverse s)).

(** [s.trim()] *)
Definition trim (s : jsstring) : jsstring := trimEnd (trimStart s).

(** [s.includes(c)] for a one-unit search string, [a.includes(x)] for an
    array of strings: both are membership. *)
Definition includes {A} `{EqDecision A} (x : A) (l : list A) : bool :=
  bool_decide (x ∈ l).

(** [s.split(sep)] for a one-unit separator: never the empty array. *)
Fixpoint split (sep : N) (s : jsstring) : list jsstring :=
  match s with
  | [] => [[]]
  | c :: s' =>
      if c =? sep then [] :: split sep s'
      else match split sep s' with
           | [] => [[c]]
           | w :: ws => (c :: w) :: ws
           end
  end.

(** [a.join(sep)] for an array of strings and a one-unit separator. *)
Fixpoint join (sep : N) (a : list jsstring) : jsstring :=
  match a with
  | [] => []
  | w :: ws =>
      match ws with
      | [] => w
      | _ :: _ => w ++ sep :: join sep ws
      end
  end.

(** [a.pop()]: the last element, [undefined] on the empty array. *)
Definition pop {A} (a : list A) : option A := last a.

(** Truthiness of the values the components test. *)
Definition truthy_flag (b : option bool) : bool := default false b.
Definition truthy_str (s : jsstring) : bool :=
  match s with [] => false | _ :: _ => true end.
Definition truthy_optstr (s : option jsstring) : bool :=
  match s with Some s => truthy_str s | None => false end.
Definition truthy_fn {F} (f : option F) : bool :=
  match f with Some _ => true | None => false end.

(** *** Handler runs

    A host callback is opaque: the model records that it was called and
    with which argument. Calling a value that is [undefined] raises a
    [TypeError]. Host callbacks themselves are taken to return. *)

Inductive handler := hostFn.
Inductive JsError := TypeError.

Record run (C : Type) := Run { calls : list C; thrown : option JsError }.
Arguments Run {C} _ _.
Arguments calls {C} _.
Arguments thrown {C} _.

Definition skip {C} : run C := Run [] None.

(** A host effect that cannot fail, such as [console.log]. *)
Definition emit {C} (c : C) : run C := Run [c] None.

(** [f(arg)], recorded as the call [c]. *)
Definition call {C} (f : option handler) (c : C) : run C :=
  match f with
  | Some _ => Run [c] None
  | None => Run [] (Some TypeError)
  end.

(** [r1; r2]: the second statement runs only if the first returns. *)
Definition seq {C} (r1 r2 : run C) : run C :=
  match thrown r1 with
  | Some _ => r1
  | None => Run (calls r1 ++ calls r2) (thrown r2)
  end.

(** [f && f(arg)], [if (f) { f(arg) }] and [f?.(arg)]. *)
Definition callIfDefined {C} (f : option handler) (c : C) : run C :=
  if truthy_fn f then call f c else skip.

#[global] Instance handler_eq_dec : EqDecision handler.
Proof. solve_decision. Defined.
#[global] Instance JsError_eq_dec : EqDecision JsError.
Proof. solve_decision. Defined.

End JS.

Infix ">>" := JS.seq (at level 61, left associativity).

(** ** ExportModal *)

Module ExportModal.
Import JS.

Inductive InputType := text | password.

(** [PreformattedExtensions]: both fields are optional in the source. *)
Record PreformattedExtensions := {
  pe_extension : option jsstring;
  pe_description : option jsstring;
}.

(** The fields of [inputProps] that the component reads and that bear on
    its logic ([id], [labelText] and [invalidText] are passed through). *)
Record InputProps := {
  invalid : option bool;
  onChange : option handler;
  onBlur : option handler;
}.

Record ExportModalProps := {
  body : option jsstring;
  error : option bool;
  errorMessage : option jsstring;
  filename : jsstring;
  inputProps : option InputProps;
  inputType : InputType;
  loading : option bool;
  loadingMessage : option jsstring;
  onClose : option handler;
  onRequestSubmit : option handler;
  open : option bool;
  preformattedExtensions : list PreformattedExtensions;
  successMessage : option jsstring;
  successful : option bool;
  validExtensions : list jsstring;
}.

(** The three [useState] cells. *)
Record State := {
  name : jsstring;
  dirtyInput : bool;
  extension : jsstring;
}.

(** [useState('')], [useState(false)], [useState('')]. *)
Definition initialState : State :=
  {| name := []; dirtyInput := false; extension := [] |}.

Definition setName (v : jsstring) (s : State) : State :=
  {| name := v; dirtyInput := dirtyInput s; extension := extension s |}.
Definition setDirtyInput (b : bool) (s : State) : State :=
  {| name := name s; dirtyInput := b; extension := extension s |}.
Definition setExtension (v : jsstring) (s : State) : State :=
  {| name := name s; dirtyInput := dirtyInput s; extension := v |}.

(** The calls the component makes to its host. *)
Inductive HostCall :=
| RequestSubmit (value : jsstring)
| InputChange (value : jsstring)
| InputBlur
| Close.

Section Component.
(** [String.prototype.toLocaleLowerCase] depends on the host locale. *)
Variable toLocaleLowerCase : jsstring -> jsstring.

(** [preformattedExtensions?.[0]?.extension] *)
Definition firstExtension (p : ExportModalProps) : option jsstring :=
  preformattedExtensions p !! 0%nat ≫= pe_extension.

(** The body of the effect with dependencies
    [filename, preformattedExtensions, open]. *)
Definition useEffect (p : ExportModalProps) (s : State) : State :=
  let s := setName (filename p) s in
  if bool_decide (0 < length (preformattedExtensions p))%nat
     && truthy_optstr (firstExtension p)
  then setExtension (default [] (firstExtension p)) s
  else s.

Definition onNameChangeHandler (p : ExportModalProps) (value : jsstring)
    (s : State) : State * run HostCall :=
  (setName value s,
   callIfDefined (inputProps p ≫= onChange) (InputChange value)).

Definition onExtensionChangeHandler (value : jsstring) (s : State)
    : State :=
  setExtension value s.

Definition onBlurHandler (p : ExportModalProps) (s : State)
    : State * run HostCall :=
  (setDirtyInput true s,
   callIfDefined (inputProps p ≫= onBlur) InputBlur).

Definition returnName (p : ExportModalProps) (s : State) : jsstring :=
  if truthy_str (extension s)
  then filename p ++ dot :: toLocaleLowerCase (extension s)
  else name s.

Definition onSubmitHandler (p : ExportModalProps) (s : State)
    : run HostCall :=
  callIfDefined (onRequestSubmit p) (RequestSubmit (returnName p s)).

Definition hasInvalidExtension (p : ExportModalProps) (s : State)
    : bool :=
  if negb (dirtyInput s)
     || negb (bool_decide (0 < length (validExtensions p))%nat)
  then false
  else if negb (includes dot (name s)) then true
  else match pop (split dot (name s)) with
       | Some ext => if negb (includes ext (validExtensions p))
                     then true else false
       | None => true
       end.

(** [inputType === 'text' ? !name?.trim() : !name] *)
Definition nameMissing (p : ExportModalProps) (s : State) : bool :=
  match inputType p with
  | text => negb (truthy_str (trim (name s)))
  | password => negb (truthy_str (name s))
  end.

Definition primaryButtonDisabled (p : ExportModalProps) (s : State)
    : bool :=
  truthy_flag (inputProps p ≫= invalid)
  || truthy_flag (loading p)
  || nameMissing p s
  || hasInvalidExtension p s.

Definition submitted (p : ExportModalProps) : bool :=
  truthy_flag (loading p) || truthy_flag (error p)
  || truthy_flag (successful p).

(** *** What the component renders

    The view keeps the elements whose presence or props the component
    computes; an event handler passed to an element is kept as the handler
    it is, and [dispatch] below runs it. *)

Inductive Control :=
| RadioButtonGroup (valueSelected : jsstring)
    (radioValues : list (option jsstring))
| TextInput (value : jsstring) (invalidFlag : bool)
| PasswordInput (value : jsstring) (invalidFlag : bool).

Record Form := {
  paragraph : option jsstring;
  control : Control;
}.

Inductive Notice :=
| LoadingNotice (message : option jsstring)
| SuccessNotice (message : option jsstring)
| ErrorNotice (message : option jsstring).

(** The footer holds the secondary button, whose [onClick] is [onClose], and
    the primary button, whose [onClick] is [onSubmitHandler]. *)
Record Footer := {
  primaryDisabled : bool;
}.

Record View := {
  form : option Form;
  messaging : list Notice;
  footer : option Footer;
}.

(** [commonInputProps.invalid] *)
Definition inputInvalid (p : ExportModalProps) (s : State) : bool :=
  truthy_flag (inputProps p ≫= invalid) || hasInvalidExtension p s.

Definition renderControl (p : ExportModalProps) (s : State) : Control :=
  if bool_decide (0 < length (preformattedExtensions p))%nat
  then RadioButtonGroup (extension s)
         (pe_extension <$> preformattedExtensions p)
  else match inputType p with
       | text => TextInput (name s) (inputInvalid p s)
       | password => PasswordInput (name s) (inputInvalid p s)
       end.

Definition render (p : ExportModalProps) (s : State) : View :=
  {| form :=
       if negb (submitted p)
       then Some {| paragraph := if truthy_optstr (body p) then body p
                                 else None;
                    control := renderControl p s |}
       else None;
     messaging :=
       (if truthy_flag (loading p) then [LoadingNotice (loadingMessage p)]
        else [])
       ++ (if truthy_flag (successful p)
           then [SuccessNotice (successMessage p)] else [])
       ++ (if truthy_flag (error p) then [ErrorNotice (errorMessage p)]
           else []);
     footer :=
       if negb (submitted p)
       then Some {| primaryDisabled := primaryButtonDisabled p s |}
       else None |}.

(** *** User events

    An event reaches a handler only through an element that is rendered; a
    disabled button does not fire its [onClick]. *)

Inductive Event :=
| ChangeInput (value : jsstring)
| BlurInput
| SelectRadio (value : jsstring)
| ClickPrimary
| ClickSecondary
| CloseHeader.

Definition dispatch (p : ExportModalProps) (s : State) (ev : Event)
    : State * run HostCall :=
  let v := render p s in
  match ev with
  | ChangeInput value =>
      match control <$> form v with
      | Some (TextInput _ _) | Some (PasswordInput _ _) =>
          onNameChangeHandler p value s
      | _ => (s, skip)
      end
  | BlurInput =>
      match control <$> form v with
      | Some (TextInput _ _) | Some (PasswordInput _ _) =>
          onBlurHandler p s
      | _ => (s, skip)
      end
  | SelectRadio value =>
      match control <$> form v with
      | Some (RadioButtonGroup _ _) =>
          (onExtensionChangeHandler value s, skip)
      | _ => (s, skip)
      end
  | ClickPrimary =>
      match footer v with
      | Some f => if primaryDisabled f then (s, skip)
                  else (s, onSubmitHandler p s)
      | None => (s, skip)
      end
  | ClickSecondary =>
      match footer v with
      | Some _ => (s, callIfDefined (onClose p) Close)
      | None => (s, skip)
      end
  | CloseHeader => (s, callIfDefined (onClose p) Close)
  end.

(** The state after a sequence of user events under fixed props. *)
Fixpoint interact (p : ExportModalProps) (s : State) (evs : list Event)
    : State :=
  match evs with
  | [] => s
  | ev :: evs' => interact p (dispatch p s ev).1 evs'
  end.

(** First render: the effect runs on the initial state. *)
Definition mount (p : ExportModalProps) : State := useEffect p initialState.

(** The host renders the dialog again with props [p'] in place of [p]: the
    effect runs when one of its dependencies [filename,
    preformattedExtensions, open] has changed. Dependencies are compared
    with [Object.is]: the filename and [open] by value, the options array
    by identity, whatever it holds. [sameOptions] tells whether the host
    passes the very array of the previous render (as it does when it leaves
    the prop out, the default being one frozen array). *)
Definition depsChanged (p p' : ExportModalProps) (sameOptions : bool)
    : bool :=
  negb (bool_decide (filename p = filename p'))
  || negb sameOptions
  || negb (bool_decide (open p = open p')).

Definition rerender (p p' : ExportModalProps) (sameOptions : bool)
    (s : State) : State :=
  if depsChanged p p' sameOptions then useEffect p' s else s.

End Component.

(** *** Sessions

    A dialog lives through user events and through renders by the host with
    new props; the trace collects the host calls made on the way. *)

Inductive Step :=
| User (ev : Event)
| Host (p' : ExportModalProps) (sameOptions : bool).

Record Session := {
  props : ExportModalProps;
  state : State;
  trace : list HostCall;
}.

Section Sessions.
Variable toLocaleLowerCase : jsstring -> jsstring.

Definition step (x : Session) (st : Step) : Session :=
  match st with
  | User ev =>
      let r := dispatch toLocaleLowerCase (props x) (state x) ev in
      {| props := props x; state := r.1; trace := trace x ++ calls r.2 |}
  | Host p' sameOptions =>
      {| props := p';
         state := rerender (props x) p' sameOptions (state x);
         trace := trace x |}
  end.

Definition session (x : Session) (steps : list Step) : Session :=
  foldl step x steps.

End Sessions.

(** The dialog as first rendered with props [p]. *)
Definition opened (p : ExportModalProps) : Session :=
  {| props := p; state := mount p; trace := [] |}.

(** *** Default values for props

    [defaults], and the destructuring of the props that have a default:
    [inputType = 'text'], [preformattedExtensions =
    defaults.preformattedExtensions] and [validExtensions =
    defaults.validExtensions]. A prop the host leaves out is [None]. *)

Record Defaults := {
  d_inputType : InputType;
  d_preformattedExtensions : list PreformattedExtensions;
  d_validExtensions : list jsstring;
}.

Definition defaults : Defaults :=
  {| d_inputType := text;
     d_preformattedExtensions := [];
     d_validExtensions := [] |}.

Definition destructure (inputTypeIn : option InputType)
    (preformattedExtensionsIn : option (list PreformattedExtensions))
    (validExtensionsIn : option (list jsstring))
    (rest : ExportModalProps) : ExportModalProps :=
  {| body := body rest; error := error rest;
     errorMessage := errorMessage rest; filename := filename rest;
     inputProps := inputProps rest;
     inputType := default text inputTypeIn;
     loading := loading rest; loadingMessage := loadingMessage rest;
     onClose := onClose rest; onRequestSubmit := onRequestSubmit rest;
     open := open rest;
     preformattedExtensions :=
       default (d_preformattedExtensions defaults) preformattedExtensionsIn;
     successMessage := successMessage rest; successful := successful rest;
     validExtensions :=
       default (d_validExtensions defaults) validExtensionsIn |}.

(** *** The validity rule as the specification words it

    [afterFinalDot n suf]: [suf] is the substring after the final ['.'] of
    [n]. [freeTextValid n E d]: the name is non-empty after trimming and,
    once dirty, the permitted list is empty or the name has a ['.'] and
    what follows the final one is permitted. *)

Definition afterFinalDot (n suf : jsstring) : Prop :=
  ∃ pre, n = pre ++ dot :: suf ∧ (dot ∉ suf).

Definition freeTextValid (n : jsstring) (E : list jsstring) (d : bool)
    : Prop :=
  trim n ≠ []
  ∧ (d = true →
     E = [] ∨ (dot ∈ n ∧ ∃ suf, afterFinalDot n suf ∧ suf ∈ E)).

(** The rule by input type: a text input is tested trimmed, a password
    input as typed; the rule on the extension is the same. For a text input
    this is [freeTextValid]. *)
Definition inputValid (t : InputType) (n : jsstring) (E : list jsstring)
    (d : bool) : Prop :=
  match t with
  | text => trim n ≠ []
  | password => n ≠ []
  end
  ∧ (d = true →
     E = [] ∨ (dot ∈ n ∧ ∃ suf, afterFinalDot n suf ∧ suf ∈ E)).

(** At most one of the three outcome flags is active. *)
Definition atMostOneOutcome (p : ExportModalProps) : Prop :=
  (length (filter (λ b, b = true)
     [truthy_flag (loading p); truthy_flag (successful p);
      truthy_flag (error p)]) ≤ 1)%nat.

(** *** Sample props *)

(** A dialog with every optional prop left out but the submit callback. *)
Definition story (fname : jsstring) (pes : list PreformattedExtensions)
    (ves : list jsstring) : ExportModalProps :=
  {| body := None; error := None; errorMessage := None;
     filename := fname; inputProps := None; inputType := text;
     loading := None; loadingMessage := None; onClose := None;
     onRequestSubmit := Some hostFn; open := Some true;
     preformattedExtensions := pes; successMessage := None;
     successful := None; validExtensions := ves |}.

(** The same dialog with another type of input. *)
Definition withInputType (t : InputType) (p : ExportModalProps)
    : ExportModalProps :=
  {| body := body p; error := error p; errorMessage := errorMessage p;
     filename := filename p; inputProps := inputProps p;
     inputType := t; loading := loading p;
     loadingMessage := loadingMessage p; onClose := onClose p;
     onRequestSubmit := onRequestSubmit p; open := open p;
     preformattedExtensions := preformattedExtensions p;
     successMessage := successMessage p; successful := successful p;
     validExtensions := validExtensions p |}.

(** The same dialog with the outcome flags set by the host. *)
Definition withOutcome (l u e : option bool) (p : ExportModalProps)
    : ExportModalProps :=
  {| body := body p; error := e; errorMessage := errorMessage p;
     filename := filename p; inputProps := inputProps p;
     inputType := inputType p; loading := l;
     loadingMessage := loadingMessage p; onClose := onClose p;
     onRequestSubmit := onRequestSubmit p; open := open p;
     preformattedExtensions := preformattedExtensions p;
     successMessage := successMessage p; successful := u;
     validExtensions := validExtensions p |}.

(** Lower-casing of the ASCII letters, as every locale but the Turkic ones
    does it on ASCII strings; used to run the model on literals. *)
Definition asciiLower (s : jsstring) : jsstring :=
  (fun c => if (65 <=? c) && (c <=? 90) then c + 32 else c) <$> s.

End ExportModal.

(** ** TagOverflow *)

Module TagOverflow.
Import JS.

(** A tag is a label; the optional custom render element plays no part. *)
Record Tag := { label : jsstring }.

(** Modelled from the spec: the TagOverflow component itself is missing
    from the sources, which hold only its documentation page. The tags are
    split into the shown ones and the overflow by the number that fits the
    measured width. *)
Definition partition (fits : nat) (tags : list Tag)
    : list Tag * list Tag :=
  (take fits tags, drop fits tags).

(** Modelled from the spec: the fixed threshold of the overflow popover,
    missing from the sources like the component. *)
Definition threshold : nat := 10.

Record Popover := {
  items : list Tag;
  viewAll : bool;
}.

(** Modelled from the spec: the popover of the missing TagOverflow
    component. It lists the overflow tags, capped at the threshold, with
    the view-all link when more remain. *)
Definition popover (overflow : list Tag) : Popover :=
  {| items := take threshold overflow;
     viewAll := bool_decide (threshold < length overflow)%nat |}.

(** Modelled from the spec: the missing modal that the view-all link opens
    lists all the tags of the object. *)
Definition allTagsModal (tags : list Tag) : list Tag := tags.

(** Modelled from the spec: what the missing component shows once its
    overflow badge has been clicked. *)
Definition tagOverflow (fits : nat) (tags : list Tag)
    : list Tag * Popover :=
  ((partition fits tags).1, popover (partition fits tags).2).

End TagOverflow.

(** ** ModifiedTabs *)

Module ModifiedTabs.
Import JS.

(** A tab object [{ id, label, content }]. *)
Record TabEntry := {
  id : jsstring;
  label : jsstring;
  content : jsstring;
}.

Record ModifiedTabsProps := {
  tabs : list TabEntry;
  newTabLabel : jsstring;
  newTabContent : jsstring;
  onNewTab : option handler;
  onCloseTab : option handler;
}.

Inductive HostCall :=
| ConsoleLog (message : jsstring)
| NewTab
| CloseTab (tabId : jsstring).

Definition handleNewTab (p : ModifiedTabsProps) : run HostCall :=
  if truthy_fn (onNewTab p)
  then emit (ConsoleLog (lit "new tab")) >> call (onNewTab p) NewTab
  else skip.

Definition handleClose (p : ModifiedTabsProps) (tabId : jsstring)
    : run HostCall :=
  if truthy_fn (onCloseTab p) then call (onCloseTab p) (CloseTab tabId)
  else skip.

(** The label element of a tab: [ModifiedTabLabel] with the id its
    [onClose] closure passes to [handleClose], or [ModifiedTabNew], whose
    [onClick] is [handleNewTab]. *)
Inductive TabLabel :=
| ModifiedTabLabel (labelText : jsstring) (onCloseId : jsstring)
| ModifiedTabNew (labelText : jsstring).

Record Tab := {
  tabId : jsstring;
  key : option jsstring;
  tabLabel : TabLabel;
  children : jsstring;
}.

(** The children of [Tabs]. *)
Definition render (p : ModifiedTabsProps) : list Tab :=
  ((fun tab =>
      {| tabId := id tab;
         key := Some (id tab);
         tabLabel := ModifiedTabLabel (label tab) (id tab);
         children := content tab |}) <$> tabs p)
  ++ [ {| tabId := lit "tab-new";
          key := None;
          tabLabel := ModifiedTabNew (newTabLabel p);
          children := newTabContent p |} ].

(** Modelled from the spec: [ModifiedTabLabel] and [ModifiedTabNew] are
    missing from the sources; activating the close or new-tab affordance of
    a label runs the [onClose] or [onClick] prop the label was given. *)
Definition activate (p : ModifiedTabsProps) (l : TabLabel) : run HostCall :=
  match l with
  | ModifiedTabLabel _ i => handleClose p i
  | ModifiedTabNew _ => handleNewTab p
  end.

(** Activating the affordance of the [i]-th rendered tab, if there is one. *)
Definition activateAt (p : ModifiedTabsProps) (i : nat) : run HostCall :=
  match render p !! i with
  | Some t => activate p (tabLabel t)
  | None => skip
  end.

End ModifiedTabs.

(** * Properties *)

(** ** Strings *)

Section StringFacts.
Import JS.

Lemma truthy_str_true (s : jsstring) : truthy_str s = true ↔ s ≠ [].
Proof. destruct s; simpl; split; congruence. Qed.

Lemma truthy_str_false (s : jsstring) : truthy_str s = false ↔ s = [].
Proof. destruct s; simpl; split; congruence. Qed.

Lemma includes_true {A} `{EqDecision A} (x : A) (l : list A) :
  includes x l = true ↔ x ∈ l.
Proof. unfold includes. by rewrite bool_decide_eq_true. Qed.

Lemma includes_false {A} `{EqDecision A} (x : A) (l : list A) :
  includes x l = false ↔ x ∉ l.
Proof. unfold includes. by rewrite bool_decide_eq_false. Qed.

Lemma split_not_nil sep (s : jsstring) : split sep s ≠ [].
Proof.
  destruct s as [|c s]; simpl; [done|].
  destruct (c =? sep); [done|]. by destruct (split sep s).
Qed.

(** The shape of [split]: one piece when the separator is absent, and
    otherwise at least two, the last of which is what follows the final
    separator. *)
Lemma split_shape sep (s : jsstring) :
  ((sep ∉ s) ∧ split sep s = [s])
  ∨ (∃ pre suf w ws, s = pre ++ sep :: suf ∧ (sep ∉ suf)
       ∧ split sep s = w :: ws ∧ last ws = Some suf).
Proof.
  induction s as [|c s IH]; simpl.
  - left. split; [apply not_elem_of_nil | done].
  - destruct (N.eqb_spec c sep) as [->|Hne].
    + right. destruct IH as [[Hnot Hs]|(pre & suf & w & ws & -> & Hsuf & Hs & Hl)].
      * exists [], s, [], [s]. by rewrite Hs.
      * exists (sep :: pre), suf, [], (w :: ws). rewrite Hs.
        repeat split; try done. rewrite last_cons, Hl. done.
    + destruct IH as [[Hnot Hs]|(pre & suf & w & ws & -> & Hsuf & Hs & Hl)].
      * left. rewrite Hs. split; [|done].
        rewrite not_elem_of_cons. split; [congruence | done].
      * right. exists (c :: pre), suf, (c :: w), ws. by rewrite Hs.
Qed.

Lemma pop_split_absent sep (s : jsstring) :
  sep ∉ s → pop (split sep s) = Some s.
Proof.
  intros Hnot. destruct (split_shape sep s) as [[_ ->]|(pre & suf & _ & _ & -> & _)].
  - done.
  - exfalso. apply Hnot. rewrite elem_of_app, elem_of_cons. auto.
Qed.

(** [split(sep).pop()] is the substring after the final separator. *)
Lemma pop_split_after_final sep (pre suf : jsstring) :
  sep ∉ suf → pop (split sep (pre ++ sep :: suf)) = Some suf.
Proof.
  intros Hsuf. unfold pop. induction pre as [|c pre IH]; simpl.
  - rewrite N.eqb_refl, last_cons.
    fold (pop (split sep suf)). by rewrite pop_split_absent.
  - destruct (c =? sep).
    + by rewrite last_cons, IH.
    + destruct (split_shape sep (pre ++ sep :: suf))
        as [[Hnot _]|(pre' & suf' & w & ws & _ & _ & Hs & Hl)].
      * exfalso. apply Hnot. rewrite elem_of_app, elem_of_cons. auto.
      * rewrite Hs in IH |- *. rewrite last_cons in IH |- *.
        rewrite Hl in IH |- *. done.
Qed.

Lemma pop_split_present sep (s : jsstring) :
  sep ∈ s →
  ∃ pre suf, s = pre ++ sep :: suf ∧ (sep ∉ suf)
             ∧ pop (split sep s) = Some suf.
Proof.
  intros Hin. destruct (split_shape sep s)
    as [[Hnot _]|(pre & suf & w & ws & -> & Hsuf & Hs & Hl)]; [done|].
  exists pre, suf. repeat split; try done. by apply pop_split_after_final.
Qed.

End StringFacts.

(** ** ExportModal: validation *)

Section ExportValidation.
Import JS ExportModal.

Lemma nameMissing_text (p : ExportModalProps) (s : State) :
  inputType p = text →
  (nameMissing p s = false ↔ trim (name s) ≠ []).
Proof.
  intros Ht. unfold nameMissing. rewrite Ht, negb_false_iff.
  apply truthy_str_true.
Qed.

Lemma nameMissing_password (p : ExportModalProps) (s : State) :
  inputType p = password →
  (nameMissing p s = false ↔ name s ≠ []).
Proof.
  intros Ht. unfold nameMissing. rewrite Ht, negb_false_iff.
  apply truthy_str_true.
Qed.

Lemma length_pos_bool {A} (l : list A) :
  bool_decide (0 < length l)%nat = false ↔ l = [].
Proof.
  rewrite bool_decide_eq_false. destruct l; simpl; split;
    try done; intros; lia.
Qed.

(** The extension check passes exactly when it is skipped (input not dirty,
    or nothing to check against) or the part after the final dot is
    permitted. *)
Lemma hasInvalidExtension_false (p : ExportModalProps) (s : State) :
  hasInvalidExtension p s = false ↔
  (dirtyInput s = true →
   validExtensions p = []
   ∨ (dot ∈ name s
      ∧ ∃ suf, afterFinalDot (name s) suf ∧ suf ∈ validExtensions p)).
Proof.
  unfold hasInvalidExtension.
  destruct (dirtyInput s); simpl; [|split; [done|auto]].
  destruct (bool_decide (0 < length (validExtensions p))%nat) eqn:Hlen; simpl.
  2:{ apply length_pos_bool in Hlen. split; auto. }
  assert (Hne : validExtensions p ≠ []).
  { intros Hnil. apply length_pos_bool in Hnil. congruence. }
  destruct (includes dot (name s)) eqn:Hdot; simpl.
  - apply includes_true in Hdot.
    destruct (pop_split_present _ _ Hdot) as (pre & suf & Hn & Hsuf & Hpop).
    rewrite Hpop.
    destruct (includes suf (validExtensions p)) eqn:Hin; simpl.
    + apply includes_true in Hin. split; [|done]. intros _ _. right.
      split; [done|]. exists suf. split; [|done]. by exists pre.
    + apply includes_false in Hin. split; [done|]. intros H.
      destruct (H eq_refl) as [|(_ & suf' & (pre' & Hn' & Hsuf') & Hin')];
        [done|].
      assert (Some suf' = Some suf) as [= ->]; [|done].
      rewrite <- Hpop, Hn'. symmetry. by apply pop_split_after_final.
  - apply includes_false in Hdot. split; [done|]. intros H.
    destruct (H eq_refl) as [|(Hin & _)]; done.
Qed.

(** The two name checks of the disabled flag pass exactly when the name is
    valid for the type of the input. *)
Lemma name_checks_pass (p : ExportModalProps) (s : State) :
  nameMissing p s || hasInvalidExtension p s = false
  ↔ inputValid (inputType p) (name s) (validExtensions p) (dirtyInput s).
Proof.
  unfold inputValid. rewrite orb_false_iff, hasInvalidExtension_false.
  destruct (inputType p) eqn:Ht.
  - by rewrite nameMissing_text.
  - by rewrite nameMissing_password.
Qed.

(** C1, as amended. The name-dependent part of the disabled flag is off
    exactly when the name is non-empty (after trimming for a text input, as
    typed for a password input) and, once the input is dirty, the permitted
    list is empty or the name contains a dot and the substring after its
    final dot is permitted; a clean input skips the membership check. The
    primary button is enabled exactly when, besides, the host neither flags
    the input invalid nor reports loading. For a text input the rule is the
    one of the specification. *)
Theorem C1_validity_by_input_type (p : ExportModalProps) (s : State) :
  (nameMissing p s || hasInvalidExtension p s = false
   ↔ inputValid (inputType p) (name s) (validExtensions p) (dirtyInput s))
  ∧ (primaryButtonDisabled p s = false
     ↔ truthy_flag (inputProps p ≫= invalid) = false
       ∧ truthy_flag (loading p) = false
       ∧ inputValid (inputType p) (name s) (validExtensions p)
           (dirtyInput s))
  ∧ (inputType p = text →
     (primaryButtonDisabled p s = false
      ↔ truthy_flag (inputProps p ≫= invalid) = false
        ∧ truthy_flag (loading p) = false
        ∧ freeTextValid (name s) (validExtensions p) (dirtyInput s))).
Proof.
  assert (Hb : primaryButtonDisabled p s = false
     ↔ truthy_flag (inputProps p ≫= invalid) = false
       ∧ truthy_flag (loading p) = false
       ∧ inputValid (inputType p) (name s) (validExtensions p)
           (dirtyInput s)).
  { rewrite <- name_checks_pass. unfold primaryButtonDisabled.
    rewrite !orb_false_iff. tauto. }
  split; [apply name_checks_pass|]. split; [exact Hb|].
  intros Ht. rewrite Hb, Ht. done.
Qed.

(** With a password input the name is tested as typed: blanks count. *)
Lemma password_name_is_not_trimmed (p : ExportModalProps) (s : State) :
  inputType p = password → name s = lit " " → nameMissing p s = false.
Proof. intros Ht Hn. apply nameMissing_password; [done|]. by rewrite Hn. Qed.

End ExportValidation.

(** ** ExportModal: submission and the effect *)

Section ExportSubmission.
Import JS ExportModal.
Variable toLocaleLowerCase : jsstring → jsstring.

Local Abbreviation returnName := (returnName toLocaleLowerCase).
Local Abbreviation onSubmitHandler := (onSubmitHandler toLocaleLowerCase).
Local Abbreviation dispatch := (dispatch toLocaleLowerCase).
Local Abbreviation interact := (interact toLocaleLowerCase).

(** What a guarded call does: the one call when the callback is given,
    nothing otherwise; it never raises. *)
Lemma callIfDefined_calls {C} (f : option handler) (c : C) :
  callIfDefined f c = Run (if truthy_fn f then [c] else []) None.
Proof. by destruct f. Qed.

Lemma onSubmitHandler_calls (p : ExportModalProps) (s : State) :
  onSubmitHandler p s =
  Run (if truthy_fn (onRequestSubmit p)
       then [RequestSubmit (returnName p s)] else []) None.
Proof. apply callIfDefined_calls. Qed.

(** With an extension selected the submitted name is built from the
    [filename] prop and the extension alone. *)
Lemma returnName_selected (p : ExportModalProps) (s : State) :
  extension s ≠ [] →
  returnName p s = filename p ++ dot :: toLocaleLowerCase (extension s).
Proof.
  intros He. unfold ExportModal.returnName.
  apply truthy_str_true in He. by rewrite He.
Qed.

Lemma returnName_unselected (p : ExportModalProps) (s : State) :
  extension s = [] → returnName p s = name s.
Proof. intros He. unfold ExportModal.returnName. by rewrite He. Qed.

(** The effect always takes the name from the [filename] prop and never
    touches the dirty flag. *)
Lemma useEffect_name (p : ExportModalProps) (s : State) :
  name (useEffect p s) = filename p.
Proof. unfold useEffect. by case_match. Qed.

Lemma useEffect_dirtyInput (p : ExportModalProps) (s : State) :
  dirtyInput (useEffect p s) = dirtyInput s.
Proof. unfold useEffect. by case_match. Qed.

(** The effect selects the extension of the first option when that is a
    non-empty string, and leaves the selection alone otherwise. *)
Lemma useEffect_extension_first (p : ExportModalProps) (s : State) o rest e :
  preformattedExtensions p = o :: rest →
  pe_extension o = Some e → e ≠ [] →
  extension (useEffect p s) = e.
Proof.
  intros Hp Ho He. unfold useEffect, firstExtension. rewrite Hp. simpl.
  rewrite Ho. simpl. apply truthy_str_true in He. by rewrite He.
Qed.

Lemma useEffect_extension_kept (p : ExportModalProps) (s : State) :
  truthy_optstr (firstExtension p) = false →
  extension (useEffect p s) = extension s.
Proof.
  intros Hf. unfold useEffect. rewrite Hf, andb_false_r. done.
Qed.

Lemma rerender_new_filename (p p' : ExportModalProps)
    (sameOptions : bool) (s : State) :
  filename p' ≠ filename p → rerender p p' sameOptions s = useEffect p' s.
Proof.
  intros Hf. unfold rerender, depsChanged.
  rewrite bool_decide_eq_false_2 by congruence. done.
Qed.

(** No user event and no run of the effect clears the dirty flag. *)
Lemma dispatch_dirtyInput (p : ExportModalProps) (s : State) (ev : Event) :
  dirtyInput s = true → dirtyInput (dispatch p s ev).1 = true.
Proof.
  intros Hd. unfold ExportModal.dispatch.
  destruct ev; simpl; repeat case_match; simpl; done.
Qed.

Lemma interact_dirtyInput (p : ExportModalProps) (evs : list Event) :
  ∀ s, dirtyInput s = true → dirtyInput (interact p s evs) = true.
Proof.
  induction evs as [|ev evs IH]; intros s Hd; simpl; [done|].
  apply IH. by apply dispatch_dirtyInput.
Qed.

(** When an outcome flag is set, neither the form nor the footer is
    rendered. *)
Lemma render_submitted (p : ExportModalProps) (s : State) :
  submitted p = true →
  form (render p s) = None ∧ footer (render p s) = None.
Proof. intros Hs. unfold render. rewrite Hs. done. Qed.

(** A disabled primary button keeps every event from the submit
    callback. *)
Lemma disabled_blocks_submit (p : ExportModalProps) (s : State) :
  primaryButtonDisabled p s = true →
  ∀ ev v, RequestSubmit v ∉ calls (dispatch p s ev).2.
Proof.
  intros Hdis ev v. unfold ExportModal.dispatch, render. rewrite Hdis.
  destruct ev, (submitted p); simpl; repeat case_match; simpl;
    rewrite ?callIfDefined_calls; simpl; repeat case_match;
    rewrite ?elem_of_nil, ?list_elem_of_singleton;
    solve [tauto | discriminate].
Qed.

(** C2, as amended. While [loading], [error] or [successful] is set, no
    user event reaches [onRequestSubmit]. Whenever [loading] is set or the
    name state is not valid for the type of the input (blank after trimming
    for a text input, empty for a password input, or failing the rule on
    the extension once dirty), the primary button is disabled and no event
    reaches [onRequestSubmit]. While no extension is selected the name
    state is the computed filename, so the button is then disabled whenever
    the computed filename is not valid in that sense. *)
Theorem C2_submit_gated (p : ExportModalProps) (s : State) :
  (submitted p = true →
   ∀ ev v, RequestSubmit v ∉ calls (dispatch p s ev).2)
  ∧ (¬ inputValid (inputType p) (name s) (validExtensions p) (dirtyInput s)
     ∨ truthy_flag (loading p) = true →
     primaryButtonDisabled p s = true
     ∧ ∀ ev v, RequestSubmit v ∉ calls (dispatch p s ev).2)
  ∧ (extension s = [] →
     returnName p s = name s
     ∧ (¬ inputValid (inputType p) (returnName p s) (validExtensions p)
            (dirtyInput s) →
        primaryButtonDisabled p s = true)).
Proof.
  assert (Hinv :
    ¬ inputValid (inputType p) (name s) (validExtensions p) (dirtyInput s) →
    primaryButtonDisabled p s = true).
  { intros Hn. unfold primaryButtonDisabled.
    destruct (nameMissing p s || hasInvalidExtension p s) eqn:Hc.
    - apply orb_true_iff in Hc as [-> | ->]; by rewrite ?orb_true_r.
    - destruct Hn. by apply name_checks_pass. }
  split; [|split].
  - intros Hs ev v. destruct (render_submitted p s Hs) as [Hform Hfoot].
    unfold ExportModal.dispatch. rewrite Hform, Hfoot.
    destruct ev; simpl; try apply not_elem_of_nil.
    rewrite callIfDefined_calls. simpl.
    destruct (truthy_fn (onClose p)); [|apply not_elem_of_nil].
    rewrite list_elem_of_singleton. done.
  - intros Hbad.
    assert (Hdis : primaryButtonDisabled p s = true).
    { destruct Hbad as [Hn|Hl]; [by apply Hinv|].
      unfold primaryButtonDisabled. by rewrite Hl, ?orb_true_r. }
    split; [done|]. by apply disabled_blocks_submit.
  - intros He. rewrite returnName_unselected by done. done.
Qed.

(** C3, as amended. When the first preformatted option has a non-empty
    extension, every run of the effect (on opening, and on a change of the
    filename, of the options or of [open]) selects it; and whenever a
    non-empty extension is selected, the name handed to the submit callback
    is the [filename] prop, a dot, and the selected extension in lower
    case. *)
Theorem C3_first_extension_preselected (p : ExportModalProps) (s : State)
    (o : PreformattedExtensions) (rest : list PreformattedExtensions)
    (e : jsstring) :
  preformattedExtensions p = o :: rest →
  pe_extension o = Some e → e ≠ [] →
  extension (useEffect p s) = e
  ∧ onSubmitHandler p (useEffect p s) =
      Run (if truthy_fn (onRequestSubmit p)
           then [RequestSubmit
                   (filename p ++ dot :: toLocaleLowerCase e)]
           else []) None
  ∧ ∀ s', extension s' ≠ [] →
      onSubmitHandler p s' =
      Run (if truthy_fn (onRequestSubmit p)
           then [RequestSubmit
                   (filename p
                    ++ dot :: toLocaleLowerCase (extension s'))]
           else []) None.
Proof.
  intros Hp Ho He.
  pose proof (useEffect_extension_first p s o rest e Hp Ho He) as Hext.
  split; [done|]. split.
  - rewrite onSubmitHandler_calls, returnName_selected by congruence.
    by rewrite Hext.
  - intros s' Hs'. by rewrite onSubmitHandler_calls, returnName_selected.
Qed.

(** C4, as amended. After any sequence of user events, rendering the dialog
    again with another [filename] sets the name state to the new filename
    and leaves the dirty flag as it was; the selected extension becomes the
    extension of the first preformatted option when that is a non-empty
    string, and is left as it was otherwise. *)
Theorem C4_reopen_resets_name (p p' : ExportModalProps)
    (sameOptions : bool) (evs : list Event) :
  filename p' ≠ filename p →
  let s := interact p (mount p) evs in
  let s' := rerender p p' sameOptions s in
  name s' = filename p'
  ∧ dirtyInput s' = dirtyInput s
  ∧ (∀ o rest e, preformattedExtensions p' = o :: rest →
      pe_extension o = Some e → e ≠ [] → extension s' = e)
  ∧ (truthy_optstr (firstExtension p') = false →
     extension s' = extension s).
Proof.
  intros Hf s s'. unfold s'. rewrite rerender_new_filename by done.
  split; [apply useEffect_name|]. split; [apply useEffect_dirtyInput|].
  split; [|apply useEffect_extension_kept].
  intros o rest e. apply useEffect_extension_first.
Qed.

(** C8. With a non-empty extension selected, a change of the text input
    leaves the selection alone and has no effect on the submitted value,
    which is built from the [filename] prop. *)
Theorem C8_submit_ignores_name_state (p : ExportModalProps) (s : State)
    (value : jsstring) :
  extension s ≠ [] →
  let s' := (onNameChangeHandler p value s).1 in
  name s' = value
  ∧ extension s' = extension s
  ∧ onSubmitHandler p s' = onSubmitHandler p s
  ∧ onSubmitHandler p s' =
      Run (if truthy_fn (onRequestSubmit p)
           then [RequestSubmit
                   (filename p
                    ++ dot :: toLocaleLowerCase (extension s))]
           else []) None.
Proof.
  intros He s'. split; [done|]. split; [done|].
  rewrite !onSubmitHandler_calls.
  rewrite (returnName_selected p s'), (returnName_selected p s) by done.
  done.
Qed.

(** C9. When the first preformatted option has no truthy extension, the
    effect selects nothing: an empty selection stays empty, and submitting
    hands the name state, not a dot-suffixed filename, to the callback. *)
Theorem C9_no_preselection_without_extension (p : ExportModalProps)
    (s : State) (o : PreformattedExtensions)
    (rest : list PreformattedExtensions) :
  preformattedExtensions p = o :: rest →
  truthy_optstr (pe_extension o) = false →
  extension s = [] →
  let s' := useEffect p s in
  extension s' = []
  ∧ onSubmitHandler p s' =
      Run (if truthy_fn (onRequestSubmit p)
           then [RequestSubmit (name s')] else []) None.
Proof.
  intros Hp Ho He s'.
  assert (Hext : extension s' = []).
  { unfold s'. rewrite useEffect_extension_kept; [done|].
    unfold firstExtension. by rewrite Hp. }
  split; [done|].
  by rewrite onSubmitHandler_calls, returnName_unselected.
Qed.

End ExportSubmission.

Section ExportSubmissionInstances.
Import JS ExportModal.

(** C1 as stated fails for a password input, which free-text mode
    includes: a name of one blank is tested as typed, so the button is
    enabled and the blank is submitted, though the name is empty after
    trimming. *)
Lemma C1_counterexample :
  let p := withInputType password (story (lit "secret") [] []) in
  let s := (dispatch asciiLower p (mount p) (ChangeInput (lit " "))).1 in
  preformattedExtensions p = []
  ∧ name s = lit " "
  ∧ primaryButtonDisabled p s = false
  ∧ (dispatch asciiLower p s ClickPrimary).2
    = Run [RequestSubmit (lit " ")] None
  ∧ trim (name s) = []
  ∧ ¬ (primaryButtonDisabled p s = false
       ↔ freeTextValid (name s) (validExtensions p) (dirtyInput s)).
Proof.
  intros p s. repeat (split; [reflexivity|]).
  intros [H _]. destruct (H eq_refl) as [Ht _]. apply Ht. reflexivity.
Qed.

Lemma C1_validity_by_input_type_witness :
  let p := withInputType password (story (lit "secret") [] [lit "pem"]) in
  let s := setDirtyInput true (setName (lit " key.pem") (mount p)) in
  inputType p = password
  ∧ primaryButtonDisabled p s = false
  ∧ inputValid (inputType p) (name s) (validExtensions p) (dirtyInput s).
Proof.
  intros p s. split; [reflexivity|]. split; [reflexivity|].
  apply (proj1 (proj1 (C1_validity_by_input_type p s))). reflexivity.
Defined.

(** C2 as stated fails on the same ground: for a password input a computed
    filename of blanks is not valid by the rule of the specification, yet
    with [loading] off the button is enabled and the click submits it. *)
Lemma C2_counterexample :
  let p := withInputType password (story (lit "key") [] []) in
  let s := (dispatch asciiLower p (mount p) (ChangeInput (lit "  "))).1 in
  returnName asciiLower p s = lit "  "
  ∧ ¬ freeTextValid (returnName asciiLower p s) (validExtensions p)
        (dirtyInput s)
  ∧ truthy_flag (loading p) = false
  ∧ primaryButtonDisabled p s = false
  ∧ (dispatch asciiLower p s ClickPrimary).2
    = Run [RequestSubmit (lit "  ")] None
  ∧ ¬ (¬ freeTextValid (returnName asciiLower p s) (validExtensions p)
           (dirtyInput s)
       ∨ truthy_flag (loading p) = true →
       primaryButtonDisabled p s = true).
Proof.
  intros p s.
  assert (Hn : ¬ freeTextValid (returnName asciiLower p s)
                   (validExtensions p) (dirtyInput s)).
  { intros [Ht _]. apply Ht. reflexivity. }
  split; [reflexivity|]. split; [exact Hn|].
  repeat (split; [reflexivity|]).
  intros H. discriminate (H (or_introl Hn)).
Qed.

Lemma C2_submit_gated_witness :
  let p := withOutcome None None (Some true) (story (lit "  ") [] []) in
  let s := mount p in
  submitted p = true
  ∧ ¬ inputValid (inputType p) (name s) (validExtensions p) (dirtyInput s)
  ∧ primaryButtonDisabled p s = true
  ∧ (∀ ev v, RequestSubmit v ∉ calls (dispatch asciiLower p s ev).2)
  ∧ returnName asciiLower p s = name s.
Proof.
  intros p s.
  assert (Hn : ¬ inputValid (inputType p) (name s) (validExtensions p)
                   (dirtyInput s)).
  { intros [Ht _]. apply Ht. reflexivity. }
  destruct (C2_submit_gated asciiLower p s) as (H1 & H2 & H3).
  split; [reflexivity|]. split; [exact Hn|].
  split; [exact (proj1 (H2 (or_introl Hn)))|].
  split; [exact (H1 eq_refl) | exact (proj1 (H3 eq_refl))].
Defined.

(** C3 as stated fails when the first option carries no extension: nothing
    is selected on opening and the callback gets the bare name. *)
Lemma C3_counterexample :
  let o := {| pe_extension := None;
              pe_description := Some (lit "comma separated") |} in
  let p := story (lit "report") [o] [] in
  let s := mount p in
  preformattedExtensions p = [o]
  ∧ pe_extension o ≠ Some (extension s)
  ∧ onSubmitHandler asciiLower p s = Run [RequestSubmit (lit "report")] None
  ∧ ¬ (pe_extension o = Some (extension s)
       ∧ onSubmitHandler asciiLower p s =
           Run [RequestSubmit
                  (filename p ++ dot :: asciiLower (extension s))] None).
Proof.
  intros o p s. split; [reflexivity|]. split; [discriminate|].
  split; [reflexivity|]. intros [H _]. discriminate H.
Qed.

Lemma C3_first_extension_preselected_witness :
  let o := {| pe_extension := Some (lit "CSV");
              pe_description := Some (lit "comma separated") |} in
  let p := story (lit "report") [o] [] in
  extension (mount p) = lit "CSV"
  ∧ onSubmitHandler asciiLower p (mount p) =
      Run [RequestSubmit (lit "report.csv")] None.
Proof.
  intros o p.
  destruct (C3_first_extension_preselected asciiLower p initialState
              o [] (lit "CSV") eq_refl eq_refl) as (H1 & H2 & _).
  - discriminate.
  - split; [exact H1 | exact H2].
Defined.

(** C4 as stated fails on the dirty flag: once the input has been blurred,
    a new filename resets the name but the flag stays set. *)
Lemma C4_counterexample :
  let p := story (lit "report") [] [] in
  let p' := story (lit "summary") [] [] in
  let s := interact asciiLower p (mount p) [BlurInput] in
  let s' := rerender p p' true s in
  filename p' ≠ filename p
  ∧ name s' = filename p'
  ∧ dirtyInput s' = true
  ∧ ¬ (name s' = filename p'
       ∧ (∀ e, firstExtension p' = Some e → extension s' = e)
       ∧ dirtyInput s' = false).
Proof.
  intros p p' s s'. split; [discriminate|]. split; [reflexivity|].
  split; [reflexivity|]. intros (_ & _ & H). discriminate H.
Qed.

Lemma C4_reopen_resets_name_witness :
  let o := {| pe_extension := Some (lit "pdf"); pe_description := None |} in
  let p := story (lit "report") [] [] in
  let p' := story (lit "summary") [o] [] in
  let s := interact asciiLower p (mount p)
             [ChangeInput (lit "draft"); BlurInput] in
  let s' := rerender p p' false s in
  name s' = lit "summary" ∧ dirtyInput s' = true
  ∧ extension s' = lit "pdf".
Proof.
  intros o p p' s s'.
  assert (Hf : filename p' ≠ filename p) by discriminate.
  destruct (C4_reopen_resets_name asciiLower p p' false
              [ChangeInput (lit "draft"); BlurInput] Hf)
    as (H1 & H2 & H3 & _).
  split; [exact H1|]. split; [exact H2|].
  apply (H3 o [] (lit "pdf") eq_refl eq_refl). discriminate.
Defined.

Lemma C8_submit_ignores_name_state_witness :
  let p := story (lit "report") [] [] in
  let s := setExtension (lit "PDF") (mount p) in
  let s' := (onNameChangeHandler p (lit "draft") s).1 in
  name s' = lit "draft"
  ∧ onSubmitHandler asciiLower p s' =
      Run [RequestSubmit (lit "report.pdf")] None.
Proof.
  intros p s s'.
  assert (He : extension s ≠ []) by discriminate.
  destruct (C8_submit_ignores_name_state asciiLower p s (lit "draft") He)
    as (H1 & _ & _ & H4).
  split; [exact H1 | exact H4].
Defined.

Lemma C9_no_preselection_without_extension_witness :
  let o := {| pe_extension := None;
              pe_description := Some (lit "comma separated") |} in
  let p := story (lit "report") [o] [] in
  extension (mount p) = []
  ∧ onSubmitHandler asciiLower p (mount p) =
      Run [RequestSubmit (lit "report")] None.
Proof.
  intros o p.
  exact (C9_no_preselection_without_extension asciiLower p initialState
           o [] eq_refl eq_refl eq_refl).
Defined.

End ExportSubmissionInstances.

(** ** ExportModal: the outcome flags *)

Section ExportOutcome.
Import JS ExportModal.

Lemma withOutcome_flags (l u e : option bool) (p : ExportModalProps) :
  loading (withOutcome l u e p) = l
  ∧ successful (withOutcome l u e p) = u
  ∧ error (withOutcome l u e p) = e.
Proof. done. Qed.

Lemma submitted_true (p : ExportModalProps) :
  submitted p = true ↔
  truthy_flag (loading p) = true ∨ truthy_flag (successful p) = true
  ∨ truthy_flag (error p) = true.
Proof. unfold submitted. rewrite !orb_true_iff. tauto. Qed.

(** C5 as stated fails: the host can set two flags at once, and both
    notices are then rendered. *)
Lemma C5_counterexample :
  let p := withOutcome (Some true) None (Some true)
             (story (lit "report") [] []) in
  truthy_flag (loading p) = true ∧ truthy_flag (error p) = true
  ∧ messaging (render p (mount p)) = [LoadingNotice None; ErrorNotice None]
  ∧ ¬ atMostOneOutcome p.
Proof.
  intros p. repeat split; try reflexivity.
  unfold atMostOneOutcome. vm_compute. lia.
Qed.

(** C5, as amended. The outcome is three independent optional boolean
    props: every combination of them can be passed, each notice is shown
    exactly when its own flag is truthy, and the form and the footer are
    hidden exactly when at least one flag is. *)
Theorem C5_outcome_flags_independent (p : ExportModalProps) (s : State) :
  (∀ l u e : option bool,
     loading (withOutcome l u e p) = l
     ∧ successful (withOutcome l u e p) = u
     ∧ error (withOutcome l u e p) = e)
  ∧ (LoadingNotice (loadingMessage p) ∈ messaging (render p s)
     ↔ truthy_flag (loading p) = true)
  ∧ (SuccessNotice (successMessage p) ∈ messaging (render p s)
     ↔ truthy_flag (successful p) = true)
  ∧ (ErrorNotice (errorMessage p) ∈ messaging (render p s)
     ↔ truthy_flag (error p) = true)
  ∧ (form (render p s) = None
     ↔ truthy_flag (loading p) = true ∨ truthy_flag (successful p) = true
       ∨ truthy_flag (error p) = true)
  ∧ (footer (render p s) = None
     ↔ truthy_flag (loading p) = true ∨ truthy_flag (successful p) = true
       ∨ truthy_flag (error p) = true).
Proof.
  split; [intros; apply withOutcome_flags|].
  rewrite <- !submitted_true. unfold render; simpl.
  repeat split;
    try (destruct (truthy_flag (loading p)),
           (truthy_flag (successful p)), (truthy_flag (error p));
         simpl; rewrite ?elem_of_cons, ?elem_of_nil;
         intuition congruence);
    destruct (submitted p); simpl; congruence.
Qed.

End ExportOutcome.

(** ** TagOverflow *)

Section TagOverflowFacts.
Import JS TagOverflow.

(** C6. The popover lists at most ten of the overflow tags, the first ones
    in their order and all of them when there are no more than ten; the
    view-all link is shown exactly when there are more than ten, and the
    list it opens holds every tag. *)
Theorem C6_popover_capped (fits : nat) (tags : list Tag) :
  let overflow := (partition fits tags).2 in
  let pop := (tagOverflow fits tags).2 in
  (length (items pop) ≤ 10)%nat
  ∧ items pop `prefix_of` overflow
  ∧ length (items pop) = Nat.min 10 (length overflow)
  ∧ (viewAll pop = true ↔ (10 < length overflow)%nat)
  ∧ (viewAll pop = false → items pop = overflow)
  ∧ allTagsModal tags = (tagOverflow fits tags).1 ++ overflow.
Proof.
  intros overflow pop.
  assert (Hi : items pop = take 10 overflow) by reflexivity.
  assert (Hv : viewAll pop = bool_decide (10 < length overflow)%nat)
    by reflexivity.
  rewrite Hi, Hv. clear Hi Hv. repeat split.
  - rewrite length_take. lia.
  - apply prefix_take.
  - apply length_take.
  - apply bool_decide_eq_true_1.
  - apply bool_decide_eq_true_2.
  - intros Hv. apply bool_decide_eq_false in Hv.
    apply take_ge. lia.
  - unfold allTagsModal, overflow, tagOverflow, partition.
    symmetry. apply take_drop.
Qed.

End TagOverflowFacts.

(** ** ModifiedTabs *)

Section ModifiedTabsFacts.
Import JS ModifiedTabs.

Lemma render_length (p : ModifiedTabsProps) :
  length (render p) = S (length (tabs p)).
Proof. unfold render. rewrite length_app, length_fmap. simpl. lia. Qed.

Lemma render_lookup_tab (p : ModifiedTabsProps) (i : nat) (t : TabEntry) :
  tabs p !! i = Some t →
  render p !! i =
  Some {| tabId := id t; key := Some (id t);
          tabLabel := ModifiedTabLabel (label t) (id t);
          children := content t |}.
Proof.
  intros Ht. unfold render. rewrite lookup_app_l.
  - by rewrite list_lookup_fmap, Ht.
  - rewrite length_fmap. by eapply lookup_lt_Some.
Qed.

Lemma render_lookup_new (p : ModifiedTabsProps) :
  render p !! length (tabs p) =
  Some {| tabId := lit "tab-new"; key := None;
          tabLabel := ModifiedTabNew (newTabLabel p);
          children := newTabContent p |}.
Proof.
  unfold render. rewrite lookup_app_r; rewrite length_fmap; [|done].
  by rewrite Nat.sub_diag.
Qed.

(** C7. The strip holds one tab per entry of [tabs], in their order, each
    with the entry's id, label and content, followed by the new-tab entry,
    which is last and is there whatever [onNewTab] is; no other tab is a
    new-tab entry; and the close affordance of a tab hands that tab's id to
    [onCloseTab]. *)
Theorem C7_tab_per_entry_plus_new (p : ModifiedTabsProps) :
  length (render p) = S (length (tabs p))
  ∧ (∀ i t, tabs p !! i = Some t →
       render p !! i =
         Some {| tabId := id t; key := Some (id t);
                 tabLabel := ModifiedTabLabel (label t) (id t);
                 children := content t |}
       ∧ activateAt p i =
           Run (if truthy_fn (onCloseTab p) then [CloseTab (id t)] else [])
               None)
  ∧ last (render p) =
      Some {| tabId := lit "tab-new"; key := None;
              tabLabel := ModifiedTabNew (newTabLabel p);
              children := newTabContent p |}
  ∧ (∀ i r l, render p !! i = Some r → tabLabel r = ModifiedTabNew l →
       i = length (tabs p)).
Proof.
  split; [apply render_length|]. split; [|split].
  - intros i t Ht. pose proof (render_lookup_tab p i t Ht) as Hr.
    split; [done|]. unfold activateAt. rewrite Hr. simpl.
    unfold handleClose. by destruct (onCloseTab p).
  - unfold render. by rewrite last_snoc.
  - intros i r l Hr Hl.
    destruct (decide (i < length (tabs p))%nat) as [Hlt|Hge].
    + destruct (lookup_lt_is_Some_2 (tabs p) i Hlt) as [t Ht].
      rewrite (render_lookup_tab p i t Ht) in Hr.
      injection Hr as <-. discriminate Hl.
    + apply lookup_lt_Some in Hr. rewrite render_length in Hr. lia.
Qed.

(** C10. When [onNewTab] is undefined, the new-tab affordance calls nothing
    and raises nothing; when [onCloseTab] is undefined, so does the close
    affordance of every tab. *)
Theorem C10_undefined_callback_noop (p : ModifiedTabsProps) :
  (onNewTab p = None →
   handleNewTab p = Run [] None
   ∧ activateAt p (length (tabs p)) = Run [] None)
  ∧ (onCloseTab p = None →
     (∀ tabId, handleClose p tabId = Run [] None)
     ∧ ∀ i, (i < length (tabs p))%nat → activateAt p i = Run [] None).
Proof.
  split.
  - intros Hn. assert (Hh : handleNewTab p = Run [] None).
    { unfold handleNewTab. by rewrite Hn. }
    split; [done|]. unfold activateAt. by rewrite render_lookup_new.
  - intros Hc. assert (Hh : ∀ tabId, handleClose p tabId = Run [] None).
    { intros tabId. unfold handleClose. by rewrite Hc. }
    split; [done|]. intros i Hi.
    destruct (lookup_lt_is_Some_2 (tabs p) i Hi) as [t Ht].
    unfold activateAt. rewrite (render_lookup_tab p i t Ht). simpl.
    apply Hh.
Qed.

Lemma C10_undefined_callback_noop_witness :
  let p := {| tabs := [ {| id := lit "tab-1"; label := lit "Tab 1";
                           content := lit "content of tab 1" |} ];
              newTabLabel := lit "New tab";
              newTabContent := lit "Your new tab will be here soon";
              onNewTab := None; onCloseTab := None |} in
  activateAt p 1 = Run [] None ∧ activateAt p 0 = Run [] None.
Proof.
  intros p. split.
  - apply (proj1 (C10_undefined_callback_noop p)). reflexivity.
  - apply (proj2 (C10_undefined_callback_noop p)); [reflexivity|].
    unfold p. simpl. lia.
Defined.

End ModifiedTabsFacts.

(** * Further properties *)

(** ** Blank names and the pieces of a name *)

Section NameFacts.
Import JS ExportModal.

Local Abbreviation blank := (Forall (λ c, isWhiteSpace c = true)).

Lemma trimStart_nil (s : jsstring) : trimStart s = [] ↔ blank s.
Proof.
  induction s as [|c s IH]; simpl.
  - split; [constructor | done].
  - destruct (isWhiteSpace c) eqn:Hc.
    + rewrite IH. split; [by constructor|]. by inversion 1.
    + split; [done|]. inversion 1; congruence.
Qed.

Lemma trimStart_blank (s : jsstring) : blank (trimStart s) ↔ blank s.
Proof.
  induction s as [|c s IH]; simpl; [done|].
  destruct (isWhiteSpace c) eqn:Hc; [|done].
  rewrite IH. split; [by constructor|]. by inversion 1.
Qed.

(** [trim] leaves nothing exactly of the strings made of white space. *)
Lemma trim_nil (s : jsstring) : trim s = [] ↔ blank s.
Proof.
  unfold trim, trimEnd.
  rewrite <- (reverse_involutive []), (inj_iff reverse).
  rewrite reverse_nil, trimStart_nil, Forall_reverse.
  apply trimStart_blank.
Qed.

(** X1. The name counts as missing, for a text input, exactly when every
    code unit of it is white space (the empty name included) and, for a
    password input, exactly when it is empty. *)
Theorem nameMissing_blank (p : ExportModalProps) (s : State) :
  nameMissing p s = true ↔
  match inputType p with
  | text => Forall (λ c, isWhiteSpace c = true) (name s)
  | password => name s = []
  end.
Proof.
  unfold nameMissing. destruct (inputType p);
    rewrite negb_true_iff, truthy_str_false; [apply trim_nil | done].
Qed.

Lemma join_cons_cons sep (w w' : jsstring) (ws : list jsstring) :
  join sep (w :: w' :: ws) = w ++ sep :: join sep (w' :: ws).
Proof. done. Qed.

(** X2. The pieces that [split] cuts a name into are free of the separator,
    are one more than the separators of the name, and joined by the
    separator give the name back. *)
Theorem split_join_roundtrip (sep : N) (s : jsstring) :
  join sep (split sep s) = s
  ∧ Forall (λ w, sep ∉ w) (split sep s)
  ∧ length (split sep s) = S (length (filter (λ c, c = sep) s)).
Proof.
  induction s as [|c s (IHj & IHf & IHl)]; simpl.
  - repeat split. constructor; [apply not_elem_of_nil | constructor].
  - destruct (N.eqb_spec c sep) as [->|Hne].
    + repeat split.
      * destruct (split sep s) as [|w ws] eqn:Hs;
          [by destruct (split_not_nil sep s)|].
        rewrite join_cons_cons, IHj. done.
      * constructor; [apply not_elem_of_nil | done].
      * rewrite filter_cons_True by done. simpl. by rewrite IHl.
    + rewrite filter_cons_False by done.
      destruct (split sep s) as [|w ws] eqn:Hs;
        [by destruct (split_not_nil sep s)|].
      repeat split.
      * rewrite <- IHj. by destruct ws.
      * inversion IHf; subst. constructor; [|done].
        rewrite not_elem_of_cons. split; [congruence | done].
      * done.
Qed.

(** X3. A permitted extension that itself contains a dot can never be
    matched: if every permitted extension has a dot, a dirty input is
    flagged whatever the name is. *)
Theorem dotted_extensions_never_match (p : ExportModalProps) (s : State) :
  dirtyInput s = true →
  validExtensions p ≠ [] →
  (∀ e, e ∈ validExtensions p → dot ∈ e) →
  hasInvalidExtension p s = true.
Proof.
  intros Hd Hne Hdots.
  destruct (hasInvalidExtension p s) eqn:Hinv; [done|].
  destruct (proj1 (hasInvalidExtension_false p s) Hinv Hd)
    as [|(_ & suf & (pre & _ & Hsuf) & Hin)]; [done|].
  destruct (Hsuf (Hdots suf Hin)).
Qed.

Lemma dotted_extensions_never_match_witness :
  let p := story (lit "backup") [] [lit "tar.gz"] in
  let s := setDirtyInput true (setName (lit "backup.tar.gz") (mount p)) in
  hasInvalidExtension p s = true.
Proof.
  intros p s. apply dotted_extensions_never_match.
  - reflexivity.
  - discriminate.
  - intros e He. apply list_elem_of_singleton in He. subst e.
    apply includes_true. reflexivity.
Defined.

(** X4. Whenever the rendered input carries the invalid flag, the primary
    button is rendered disabled; the input always shows the name state. *)
Theorem invalid_input_disables_submit (p : ExportModalProps) (s : State)
    (f : Form) :
  form (render p s) = Some f →
  match control f with
  | TextInput v i | PasswordInput v i =>
      v = name s
      ∧ (i = true → footer (render p s) = Some {| primaryDisabled := true |})
  | RadioButtonGroup v _ => v = extension s
  end.
Proof.
  unfold render. destruct (submitted p); simpl; [done|].
  intros [= <-]. simpl. unfold renderControl.
  destruct (bool_decide _); [done|].
  assert (inputInvalid p s = true → primaryButtonDisabled p s = true) as Hd.
  { unfold inputInvalid, primaryButtonDisabled.
    rewrite !orb_true_iff. tauto. }
  destruct (inputType p); (split; [done|]); intros Hi; by rewrite Hd.
Qed.

Lemma invalid_input_disables_submit_witness :
  let p := story (lit "report") [] [lit "csv"] in
  let s := setDirtyInput true (mount p) in
  footer (render p s) = Some {| primaryDisabled := true |}.
Proof.
  intros p s.
  pose proof (invalid_input_disables_submit p s
    {| paragraph := None; control := TextInput (lit "report") true |}
    eq_refl) as [_ H].
  exact (H eq_refl).
Defined.

(** X5. When the host leaves out [inputType], [preformattedExtensions] and
    [validExtensions], the dialog is a text input without restriction on
    the extension: the input is never flagged by the component, dirty or
    not, and the primary button is enabled exactly when the name is not
    blank and the host neither flags the input nor reports loading. *)
Theorem defaults_free_text_unrestricted (rest : ExportModalProps)
    (s : State) :
  let p := destructure None None None rest in
  hasInvalidExtension p s = false
  ∧ renderControl p s
    = TextInput (name s) (truthy_flag (inputProps rest ≫= invalid))
  ∧ (primaryButtonDisabled p s = false ↔
     truthy_flag (inputProps rest ≫= invalid) = false
     ∧ truthy_flag (loading rest) = false
     ∧ ¬ Forall (λ c, isWhiteSpace c = true) (name s)).
Proof.
  intros p.
  assert (Hinv : hasInvalidExtension p s = false).
  { unfold hasInvalidExtension. simpl. by rewrite orb_true_r. }
  split; [done|]. split.
  - unfold renderControl, inputInvalid. simpl. by rewrite Hinv, orb_false_r.
  - unfold primaryButtonDisabled, nameMissing. simpl.
    rewrite Hinv, !orb_false_iff, negb_false_iff.
    rewrite truthy_str_true, trim_nil. tauto.
Qed.

End NameFacts.

(** ** ExportModal: events and sessions *)

Section SessionFacts.
Import JS ExportModal.
Variable toLocaleLowerCase : jsstring → jsstring.

Local Abbreviation returnName := (returnName toLocaleLowerCase).
Local Abbreviation dispatch := (dispatch toLocaleLowerCase).
Local Abbreviation interact := (interact toLocaleLowerCase).
Local Abbreviation step := (step toLocaleLowerCase).
Local Abbreviation session := (session toLocaleLowerCase).

(** A property that every admitted step preserves holds at the end of a
    session made of admitted steps. *)
Lemma session_invariant (P : Session → Prop) (Q : Step → Prop) :
  (∀ x st, Q st → P x → P (step x st)) →
  ∀ steps x, Forall Q steps → P x → P (session x steps).
Proof.
  intros Hstep steps. induction steps as [|st steps IH]; intros x HQ HP.
  - done.
  - inversion HQ; subst. simpl. apply IH; [done|]. by apply Hstep.
Qed.

Lemma not_elem_of_Forall_ne {A} (a : A) (l : list A) :
  a ∉ l → Forall (λ b, b ≠ a) l.
Proof.
  intros Hn. apply Forall_forall. intros b Hb ->. done.
Qed.

(** X6. No handler of the dialog raises, whichever optional callbacks and
    props the host has left out. *)
Theorem dispatch_never_throws (p : ExportModalProps) (s : State)
    (ev : Event) :
  thrown (dispatch p s ev).2 = None.
Proof.
  unfold ExportModal.dispatch.
  destruct ev; simpl; repeat case_match; simpl;
    rewrite ?callIfDefined_calls, ?onSubmitHandler_calls; done.
Qed.

(** The host calls of an event: none, or the one call of its kind. *)
Lemma dispatch_calls_cases (p : ExportModalProps) (s : State) (ev : Event) :
  calls (dispatch p s ev).2 = []
  ∨ match ev with
    | ChangeInput v => calls (dispatch p s ev).2 = [InputChange v]
    | BlurInput => calls (dispatch p s ev).2 = [InputBlur]
    | SelectRadio _ => False
    | ClickPrimary =>
        calls (dispatch p s ev).2 = [RequestSubmit (returnName p s)]
    | ClickSecondary | CloseHeader => calls (dispatch p s ev).2 = [Close]
    end.
Proof.
  unfold ExportModal.dispatch.
  destruct ev; simpl; repeat case_match; simpl;
    rewrite ?callIfDefined_calls, ?onSubmitHandler_calls; simpl;
    repeat case_match; auto.
Qed.

Lemma submit_only_from_primary (p : ExportModalProps) (s : State)
    (ev : Event) (v : jsstring) :
  RequestSubmit v ∈ calls (dispatch p s ev).2 → ev = ClickPrimary.
Proof.
  destruct (dispatch_calls_cases p s ev) as [->|H].
  - by rewrite elem_of_nil.
  - destruct ev; try done; rewrite H, list_elem_of_singleton; done.
Qed.

(** X7. A user event makes at most one host call, and only the call of its
    own kind: a change of the input reports the typed value to [onChange],
    a blur calls [onBlur], a click on the primary button hands the return
    name to [onRequestSubmit], the secondary button and the header call
    [onClose], and selecting a radio button calls nothing. *)
Theorem dispatch_calls_match_event (p : ExportModalProps) (s : State)
    (ev : Event) (c : HostCall) :
  c ∈ calls (dispatch p s ev).2 →
  calls (dispatch p s ev).2 = [c]
  ∧ match ev, c with
    | ChangeInput v, InputChange v' => v' = v
    | BlurInput, InputBlur => True
    | ClickPrimary, RequestSubmit v => v = returnName p s
    | ClickSecondary, Close | CloseHeader, Close => True
    | _, _ => False
    end.
Proof.
  destruct (dispatch_calls_cases p s ev) as [->|H].
  - by rewrite elem_of_nil.
  - destruct ev; try done; rewrite H, list_elem_of_singleton;
      by intros ->.
Qed.

(** X8. Mouse clicks never alter the state, and each of the other events
    alters only its own cell: a change the name, a blur the dirty flag, a
    selection the extension. *)
Theorem dispatch_frame (p : ExportModalProps) (s : State) (ev : Event) :
  let s' := (dispatch p s ev).1 in
  match ev with
  | ChangeInput _ =>
      dirtyInput s' = dirtyInput s ∧ extension s' = extension s
  | BlurInput => name s' = name s ∧ extension s' = extension s
  | SelectRadio _ => name s' = name s ∧ dirtyInput s' = dirtyInput s
  | ClickPrimary | ClickSecondary | CloseHeader => s' = s
  end.
Proof.
  unfold ExportModal.dispatch.
  destruct ev; simpl; repeat case_match; simpl; done.
Qed.

(** X9. While an outcome flag is set, no user event changes the state, and
    the only host call left is [onClose], from the header. *)
Theorem submitted_dialog_is_inert (p : ExportModalProps) (s : State)
    (ev : Event) :
  submitted p = true →
  (dispatch p s ev).1 = s
  ∧ ∀ c, c ∈ calls (dispatch p s ev).2 → ev = CloseHeader ∧ c = Close.
Proof.
  intros Hs. destruct (render_submitted p s Hs) as [Hform Hfoot].
  unfold ExportModal.dispatch. rewrite Hform, Hfoot.
  destruct ev; simpl; (split; [done|]); intros c;
    rewrite ?callIfDefined_calls; simpl; try by rewrite elem_of_nil.
  case_match; rewrite ?elem_of_nil, ?list_elem_of_singleton; [|done].
  by intros ->.
Qed.

Lemma primaryButtonDisabled_ext (p : ExportModalProps) (s1 s2 : State) :
  name s1 = name s2 → dirtyInput s1 = dirtyInput s2 →
  primaryButtonDisabled p s1 = primaryButtonDisabled p s2.
Proof.
  intros Hn Hd.
  unfold primaryButtonDisabled, nameMissing, hasInvalidExtension.
  by rewrite Hn, Hd.
Qed.

Lemma renderControl_preformatted (p : ExportModalProps) (s : State) :
  preformattedExtensions p ≠ [] →
  renderControl p s =
  RadioButtonGroup (extension s) (pe_extension <$> preformattedExtensions p).
Proof.
  intros Hne. unfold renderControl.
  destruct (bool_decide _) eqn:Hb; [done|].
  by apply length_pos_bool in Hb.
Qed.

Lemma renderControl_free_text (p : ExportModalProps) (s : State) :
  preformattedExtensions p = [] →
  renderControl p s =
  match inputType p with
  | text => TextInput (name s) (inputInvalid p s)
  | password => PasswordInput (name s) (inputInvalid p s)
  end.
Proof. intros Hnil. unfold renderControl. by rewrite Hnil. Qed.

Lemma dispatch_preformatted (p : ExportModalProps) (s : State) (ev : Event) :
  preformattedExtensions p ≠ [] →
  name (dispatch p s ev).1 = name s
  ∧ dirtyInput (dispatch p s ev).1 = dirtyInput s.
Proof.
  intros Hne. unfold ExportModal.dispatch, render.
  rewrite renderControl_preformatted by done.
  destruct ev, (submitted p); simpl; repeat case_match; done.
Qed.

(** X10. With preformatted options the text input is not there: whatever
    the user does, the name state and the dirty flag stay as they are, and
    so does the disabled flag of the primary button. *)
Theorem preformatted_mode_frame (p : ExportModalProps) (s : State)
    (evs : list Event) :
  preformattedExtensions p ≠ [] →
  name (interact p s evs) = name s
  ∧ dirtyInput (interact p s evs) = dirtyInput s
  ∧ primaryButtonDisabled p (interact p s evs) = primaryButtonDisabled p s.
Proof.
  intros Hne.
  assert (name (interact p s evs) = name s
          ∧ dirtyInput (interact p s evs) = dirtyInput s) as [Hn Hd].
  { revert s. induction evs as [|ev evs IH]; intros s; simpl; [done|].
    destruct (IH (dispatch p s ev).1) as [-> ->].
    by apply dispatch_preformatted. }
  split; [done|]. split; [done|]. by apply primaryButtonDisabled_ext.
Qed.

(** X11. Selecting a radio button and then clicking the enabled primary
    button hands the [filename] prop, a dot and the selected value in lower
    case to [onRequestSubmit]. *)
Theorem select_then_submit (p : ExportModalProps) (s : State)
    (v : jsstring) :
  preformattedExtensions p ≠ [] →
  submitted p = false →
  primaryButtonDisabled p s = false →
  v ≠ [] →
  let s1 := (dispatch p s (SelectRadio v)).1 in
  extension s1 = v
  ∧ (dispatch p s1 ClickPrimary).2 =
      Run (if truthy_fn (onRequestSubmit p)
           then [RequestSubmit (filename p ++ dot :: toLocaleLowerCase v)]
           else []) None.
Proof.
  intros Hne Hs Hen Hv s1.
  assert (Hs1 : s1 = setExtension v s).
  { unfold s1, ExportModal.dispatch, render.
    rewrite renderControl_preformatted, Hs by done. done. }
  split; [by rewrite Hs1|].
  unfold ExportModal.dispatch, render. rewrite Hs. simpl.
  rewrite (primaryButtonDisabled_ext p s1 s), Hen by (by rewrite Hs1).
  rewrite onSubmitHandler_calls, returnName_selected; rewrite Hs1; done.
Qed.

(** X12. In free-text mode with no extension selected, typing a name and
    clicking the primary button, if that leaves it enabled, hands the name
    to [onRequestSubmit] exactly as typed, untrimmed. *)
Theorem type_then_submit (p : ExportModalProps) (s : State)
    (v : jsstring) :
  preformattedExtensions p = [] →
  submitted p = false →
  extension s = [] →
  primaryButtonDisabled p (dispatch p s (ChangeInput v)).1 = false →
  name (dispatch p s (ChangeInput v)).1 = v
  ∧ (dispatch p (dispatch p s (ChangeInput v)).1 ClickPrimary).2 =
      Run (if truthy_fn (onRequestSubmit p) then [RequestSubmit v] else [])
          None.
Proof.
  intros Hnil Hs He.
  assert (Hs1 : (dispatch p s (ChangeInput v)).1 = setName v s).
  { unfold ExportModal.dispatch, render.
    rewrite renderControl_free_text, Hs by done. simpl.
    by destruct (inputType p). }
  rewrite Hs1. intros Hen. split; [done|].
  unfold ExportModal.dispatch, render. rewrite Hs. simpl. rewrite Hen.
  by rewrite onSubmitHandler_calls, returnName_unselected.
Qed.

(** X13. Once the input has been blurred the dirty flag stays set: no user
    event and no render with new props clears it. *)
Theorem dirty_flag_is_sticky (x : Session) (steps : list Step) :
  dirtyInput (state x) = true →
  dirtyInput (state (session x steps)) = true.
Proof.
  intros Hd.
  apply (session_invariant (λ x, dirtyInput (state x) = true) (λ _, True));
    [|by apply Forall_true|done].
  intros y [ev|p' same] _ Hy; simpl.
  - by apply dispatch_dirtyInput.
  - unfold rerender. case_match; [|done]. by rewrite useEffect_dirtyInput.
Qed.

Lemma dispatch_clean (p : ExportModalProps) (s : State) (ev : Event) :
  ev ≠ BlurInput → dirtyInput (dispatch p s ev).1 = dirtyInput s.
Proof.
  intros Hev. unfold ExportModal.dispatch.
  destruct ev; simpl; repeat case_match; simpl; done.
Qed.

(** X14. From the opening of the dialog on, as long as the input has not
    been blurred, the dirty flag is off and the component does not flag the
    extension, whatever is typed and whatever props the host passes. *)
Theorem clean_until_blur (p : ExportModalProps) (steps : list Step) :
  User BlurInput ∉ steps →
  let x := session (opened p) steps in
  dirtyInput (state x) = false
  ∧ hasInvalidExtension (props x) (state x) = false.
Proof.
  intros Hn x.
  assert (Hd : dirtyInput (state x) = false).
  { apply (session_invariant (λ x, dirtyInput (state x) = false)
             (λ st, st ≠ User BlurInput));
      [|by apply not_elem_of_Forall_ne|].
    - intros y [ev|p' same] Hst Hy; simpl.
      + rewrite dispatch_clean; [done|]. congruence.
      + unfold rerender. case_match; [|done].
        by rewrite useEffect_dirtyInput.
    - simpl. unfold mount. by rewrite useEffect_dirtyInput. }
  split; [done|]. unfold hasInvalidExtension. by rewrite Hd.
Qed.

(** X15. The dialog never submits on its own: in a session without a click
    on the primary button, [onRequestSubmit] is not called. *)
Theorem no_submit_without_click (p : ExportModalProps)
    (steps : list Step) :
  User ClickPrimary ∉ steps →
  ∀ v, RequestSubmit v ∉ trace (session (opened p) steps).
Proof.
  intros Hn.
  apply (session_invariant (λ x, ∀ v, RequestSubmit v ∉ trace x)
           (λ st, st ≠ User ClickPrimary));
    [|by apply not_elem_of_Forall_ne|intros v; apply not_elem_of_nil].
  intros y [ev|p' same] Hst Hy v; simpl; [|done].
  rewrite elem_of_app. intros [Hin|Hin]; [by destruct (Hy v)|].
  apply submit_only_from_primary in Hin. congruence.
Qed.

(** X16. A selected extension outlives the effect: once the extension
    state is a non-empty string, it stays one through every render with new
    props and every user event but the selection of an empty value, so the
    return name stays built from the [filename] prop. *)
Theorem selection_outlives_effect (x : Session) (steps : list Step) :
  extension (state x) ≠ [] →
  User (SelectRadio []) ∉ steps →
  let x' := session x steps in
  extension (state x') ≠ []
  ∧ returnName (props x') (state x') =
      filename (props x') ++ dot :: toLocaleLowerCase (extension (state x')).
Proof.
  intros He Hn x'.
  assert (He' : extension (state x') ≠ []).
  { apply (session_invariant (λ x, extension (state x) ≠ [])
             (λ st, st ≠ User (SelectRadio [])));
      [|by apply not_elem_of_Forall_ne|done].
    intros y [ev|p' same] Hst Hy; simpl.
    - unfold ExportModal.dispatch.
      destruct ev; simpl; repeat case_match; simpl; try done;
        by intros ->.
    - unfold rerender, useEffect. case_match; [|done].
      case_match; simpl; [|done].
      destruct (firstExtension p') as [e|]; simpl in *;
        [|by rewrite andb_false_r in *].
      apply truthy_str_true. by destruct (bool_decide _). }
  split; [done|]. by apply returnName_selected.
Qed.

End SessionFacts.

Section SessionInstances.
Import JS ExportModal.

Lemma dispatch_calls_match_event_witness :
  let p := story (lit "report") [] [] in
  calls (dispatch asciiLower p (mount p) ClickPrimary).2
  = [RequestSubmit (lit "report")].
Proof.
  intros p.
  apply (dispatch_calls_match_event asciiLower p (mount p) ClickPrimary
           (RequestSubmit (lit "report"))).
  apply list_elem_of_singleton. reflexivity.
Defined.

Lemma submitted_dialog_is_inert_witness :
  let p := withOutcome None (Some true) None (story (lit "report") [] []) in
  (dispatch asciiLower p (mount p) (ChangeInput (lit "draft"))).1 = mount p.
Proof.
  intros p.
  apply (submitted_dialog_is_inert asciiLower p (mount p)
           (ChangeInput (lit "draft"))).
  reflexivity.
Defined.

Lemma preformatted_mode_frame_witness :
  let o := {| pe_extension := Some (lit "csv"); pe_description := None |} in
  let p := story (lit "report") [o] [lit "pdf"] in
  let s := interact asciiLower p (mount p)
             [ChangeInput (lit "draft"); BlurInput; SelectRadio (lit "pdf")] in
  name s = lit "report" ∧ dirtyInput s = false
  ∧ primaryButtonDisabled p s = primaryButtonDisabled p (mount p).
Proof.
  intros o p s.
  apply (preformatted_mode_frame asciiLower p (mount p)). discriminate.
Defined.

Lemma select_then_submit_witness :
  let o := {| pe_extension := Some (lit "csv"); pe_description := None |} in
  let o' := {| pe_extension := Some (lit "PDF"); pe_description := None |} in
  let p := story (lit "report") [o; o'] [] in
  let s1 := (dispatch asciiLower p (mount p) (SelectRadio (lit "PDF"))).1 in
  extension s1 = lit "PDF"
  ∧ (dispatch asciiLower p s1 ClickPrimary).2 =
      Run [RequestSubmit (lit "report.pdf")] None.
Proof.
  intros o o' p s1.
  apply (select_then_submit asciiLower p (mount p) (lit "PDF"));
    [discriminate | reflexivity | reflexivity | discriminate].
Defined.

Lemma type_then_submit_witness :
  let p := story (lit "report") [] [] in
  let s1 := (dispatch asciiLower p (mount p) (ChangeInput (lit " draft "))).1 in
  name s1 = lit " draft "
  ∧ (dispatch asciiLower p s1 ClickPrimary).2 =
      Run [RequestSubmit (lit " draft ")] None.
Proof.
  intros p s1.
  apply (type_then_submit asciiLower p (mount p) (lit " draft "));
    reflexivity.
Defined.

Lemma dirty_flag_is_sticky_witness :
  let p := story (lit "report") [] [] in
  let p' := story (lit "summary") [] [] in
  let x := session asciiLower (opened p) [User BlurInput] in
  dirtyInput (state (session asciiLower x
                       [Host p' true; User (ChangeInput (lit "draft"))]))
  = true.
Proof.
  intros p p' x. apply (dirty_flag_is_sticky asciiLower x). reflexivity.
Defined.

Lemma clean_until_blur_witness :
  let p := story (lit "report") [] [lit "csv"] in
  let x := session asciiLower (opened p)
             [User (ChangeInput (lit "draft")); User ClickPrimary] in
  dirtyInput (state x) = false
  ∧ hasInvalidExtension (props x) (state x) = false.
Proof.
  intros p x. apply (clean_until_blur asciiLower p).
  rewrite !not_elem_of_cons. repeat split; try discriminate.
  apply not_elem_of_nil.
Defined.

Lemma no_submit_without_click_witness :
  let p := story (lit "report") [] [] in
  RequestSubmit (lit "draft")
  ∉ trace (session asciiLower (opened p)
             [User (ChangeInput (lit "draft")); User BlurInput;
              User CloseHeader]).
Proof.
  intros p. apply (no_submit_without_click asciiLower p).
  rewrite !not_elem_of_cons. repeat split; try discriminate.
  apply not_elem_of_nil.
Defined.

Lemma selection_outlives_effect_witness :
  let o := {| pe_extension := Some (lit "csv"); pe_description := None |} in
  let p := story (lit "report") [o] [] in
  let p' := story (lit "summary") [] [] in
  let x' := session asciiLower (opened p)
              [Host p' false; User (ChangeInput (lit "draft"))] in
  extension (state x') ≠ []
  ∧ returnName asciiLower (props x') (state x') =
      filename (props x') ++ dot :: asciiLower (extension (state x')).
Proof.
  intros o p p' x'.
  apply (selection_outlives_effect asciiLower (opened p)).
  - discriminate.
  - rewrite !not_elem_of_cons. repeat split; try discriminate.
    apply not_elem_of_nil.
Defined.

End SessionInstances.

(** ** ModifiedTabs: the affordances *)

Section ModifiedTabsAffordances.
Import JS ModifiedTabs.

(** X17. Activating an affordance of the strip never raises, whichever
    callbacks are left undefined. *)
Theorem activateAt_never_throws (p : ModifiedTabsProps) (i : nat) :
  thrown (activateAt p i) = None.
Proof.
  unfold activateAt. destruct (render p !! i) as [t|]; [|done].
  destruct (tabLabel t); simpl; unfold handleClose, handleNewTab.
  - by destruct (onCloseTab p).
  - by destruct (onNewTab p).
Qed.

(** X18. Every id handed to [onCloseTab] is the id of the entry of [tabs]
    at the position activated, and [onNewTab] and the console are reached
    only from the trailing new-tab entry. *)
Theorem activateAt_calls_sound (p : ModifiedTabsProps) (i : nat)
    (c : HostCall) :
  c ∈ calls (activateAt p i) →
  match c with
  | CloseTab tabId => ∃ t, tabs p !! i = Some t ∧ tabId = id t
  | NewTab | ConsoleLog _ => i = length (tabs p)
  end.
Proof.
  unfold activateAt.
  destruct (decide (i < length (tabs p))%nat) as [Hlt|Hge].
  - destruct (lookup_lt_is_Some_2 (tabs p) i Hlt) as [t Ht].
    rewrite (render_lookup_tab p i t Ht). simpl. unfold handleClose.
    destruct (onCloseTab p); simpl; [|by rewrite elem_of_nil].
    rewrite list_elem_of_singleton. intros ->. by exists t.
  - destruct (decide (i = length (tabs p))) as [->|Hne].
    + rewrite render_lookup_new. simpl. unfold handleNewTab.
      destruct (onNewTab p); simpl; [|by rewrite elem_of_nil].
      rewrite !elem_of_cons, elem_of_nil. by intros [->|[->|[]]].
    + rewrite (lookup_ge_None_2 (render p) i); [by rewrite elem_of_nil|].
      rewrite render_length. lia.
Qed.

Lemma activateAt_calls_sound_witness :
  let p := {| tabs := [ {| id := lit "tab-1"; label := lit "Tab 1";
                           content := lit "content of tab 1" |} ];
              newTabLabel := lit "New tab";
              newTabContent := lit "Your new tab will be here soon";
              onNewTab := Some hostFn; onCloseTab := Some hostFn |} in
  ∃ t, tabs p !! 0%nat = Some t ∧ lit "tab-1" = id t.
Proof.
  intros p.
  apply (activateAt_calls_sound p 0 (CloseTab (lit "tab-1"))).
  apply list_elem_of_singleton. reflexivity.
Defined.

(** X19. With [onNewTab] supplied, the new-tab affordance logs to the
    console and then calls [onNewTab], once and without argument. *)
Theorem new_tab_logs_then_calls (p : ModifiedTabsProps) :
  onNewTab p ≠ None →
  activateAt p (length (tabs p))
  = Run [ConsoleLog (lit "new tab"); NewTab] None.
Proof.
  intros Hn. unfold activateAt. rewrite render_lookup_new. simpl.
  unfold handleNewTab. by destruct (onNewTab p).
Qed.

Lemma new_tab_logs_then_calls_witness :
  let p := {| tabs := []; newTabLabel := lit "New tab";
              newTabContent := lit "Your new tab will be here soon";
              onNewTab := Some hostFn; onCloseTab := None |} in
  activateAt p 0 = Run [ConsoleLog (lit "new tab"); NewTab] None.
Proof.
  intros p. apply (new_tab_logs_then_calls p). discriminate.
Defined.

End ModifiedTabsAffordances.
